(** * polygon-drawer: the construction and editing state machine

    A shallow embedding of the two front-end variants of the polygon
    drawer: [src/App.jsx] (with drag editing, module [App]) and the
    second source file, the same component without drag editing (module
    [NoDrag]).

    Numbers.  The program computes in IEEE 754 doubles.  The state
    machine is modelled over exact rationals ([Qc], the canonical
    rationals: every finite double is a [Qc]); [within10] and
    [calculateArea] stand there for the proximity test and the area
    function of the program, computed without rounding.  The theorems
    about the machine use the two through their results only (whether
    the test passed, which area was returned), or at inputs on which
    double arithmetic is exact, so they hold however the program rounds.
    What depends on rounding is settled on [Double.calculateArea], the
    same function on primitive binary64 floats, which is the program's
    to the last bit; lemma [no_rounding_exact] relates the two.

    State.  Each React state cell ([useState]) is a field of a record; a
    handler is a function from the state in which the event arrives to
    the state after its updates are applied.  The handlers never mutate
    an array in place (every update copies), so no aliasing has to be
    modelled.  The cursor position [mx], [my] a handler receives is the
    [x], [y] it computes from the event and the canvas rectangle.
    The drawing effect is modelled as the list of calls it makes on the
    canvas context (section Drawing); the drawing [handleClick] does
    itself, erased by the next run of the effect, is not.

    Arrays.  An array of points is a list; [a[i]] inside a loop that runs
    over the indices of [a] is the total lookup [a !!! i] (lemma
    [shoelace_indices_in_range]: the loop never reads outside the array);
    a write [a[i] = v] is [array_set]. *)

From stdpp Require Import base option decidable list numbers.
From Stdlib Require String.
From Stdlib Require Floats.
Import String.StringSyntax.
Local Open Scope string_scope.
From Stdlib Require Import QArith Qcanon Qcabs.

Local Open Scope Qc_scope.

(** ** Numbers *)

(** A numeric literal of the source. *)
Definition num (n : Z) : Qc := Qc_of_Z n.

(** [Math.pow(d, n)] for a literal natural exponent. *)
Definition Math_pow (d : Qc) (n : nat) : Qc := d ^ n.

(** [Math.abs]. *)
Definition Math_abs (d : Qc) : Qc := Qcabs d.

(** [Math.sqrt(d) <= r], without rounding.  A square root is not
    rational in general, so the test is decided on the squares: [0 <= d],
    [0 <= r] and [d <= r * r].  The program compares the rounded square
    root of a rounded sum of squares, which can decide the other way for
    a distance within rounding of [r]. *)
Definition sqrt_le (d r : Qc) : bool :=
  bool_decide (0 ≤ d) && bool_decide (0 ≤ r) && bool_decide (d ≤ r * r).

(** ** Data *)

(** A point [{ x, y }]. *)
Record Point : Type := mkPoint { x : Qc; y : Qc }.

#[global] Instance Point_inhabited : Inhabited Point :=
  populate (mkPoint 0 0).

(** A completed polygon [{ area, points }]. *)
Module Polygon.
Record t : Type := mk { area : Qc; points : list Point }.
End Polygon.

(** The object returned by [getPointAtPosition]:
    [{ type: "current", index }] or [{ type: "polygon", index, polygonIndex }]. *)
Inductive Target : Type :=
  | TCurrent (index : nat)
  | TPolygon (index : nat) (polygonIndex : nat).

(** The values taken by [cursorStyle]. *)
Inductive CursorStyle : Type := crosshair | pointer | grabbing.

(** [a[i] = v] on a copied array.  Inside the array the element is
    replaced; at [i = a.length] JavaScript extends the array by one; past
    that it leaves holes, and a sparse array is not a list of points:
    [None]. *)
Definition array_set (a : list Point) (i : nat) (v : Point) : option (list Point) :=
  if decide (i < length a)%nat then Some (<[i := v]> a)
  else if decide (i = length a) then Some (a ++ [v])
  else None.

(** [distance <= 10] where
    [distance = Math.sqrt(Math.pow(x - p.x, 2) + Math.pow(y - p.y, 2))]. *)
Definition within10 (mx my : Qc) (p : Point) : bool :=
  sqrt_le (Math_pow (mx - x p) 2 + Math_pow (my - y p) 2) (num 10).

(** ** [src/App.jsx]: the variant with drag editing *)
Module App.

Record State : Type := mkState {
  points : list Point;
  mousePos : option Point;
  isDrawing : bool;
  polygons : list Polygon.t;
  draggedPoint : option Target;
  hoveredPoint : option Target;
  cursorStyle : CursorStyle
}.

Definition initial : State :=
  mkState [] None false [] None None crosshair.

(** The body of the [for] loop of [calculateArea]: one iteration at
    index [i], on the accumulator [area]. *)
Definition shoelace_step (polygonPoints : list Point) (area : Qc) (i : nat) : Qc :=
  let j := ((i + 1) mod length polygonPoints)%nat in
  let area := area + x (polygonPoints !!! i) * y (polygonPoints !!! j) in
  let area := area - x (polygonPoints !!! j) * y (polygonPoints !!! i) in
  area.

(** [calculateArea], lines 89-99, without rounding ([Double.calculateArea]
    is the same text in double arithmetic). *)
Definition calculateArea (polygonPoints : list Point) : Qc :=
  if decide (length polygonPoints < 3)%nat then 0
  else
    let area := foldl (shoelace_step polygonPoints) 0 (seq 0 (length polygonPoints)) in
    Math_abs (area / num 2).

(** The second loop of [getPointAtPosition]: the completed polygons from
    index [polygonIndex] on; in each, the first vertex within 10. *)
Fixpoint scanPolygons (mx my : Qc) (polygonIndex : nat) (polys : list Polygon.t)
    : option Target :=
  match polys with
  | [] => None
  | polygon :: rest =>
      match list_find (λ p, within10 mx my p = true) (Polygon.points polygon) with
      | Some (i, _) => Some (TPolygon i polygonIndex)
      | None => scanPolygons mx my (S polygonIndex) rest
      end
  end.

(** [getPointAtPosition], lines 102-127, on the chain and the store of
    the current render.  The first loop returns at the first index of the
    chain whose vertex passes the test ([list_find]); the second loop
    runs only when the first did not return. *)
Definition getPointAtPosition (s : State) (mx my : Qc) : option Target :=
  match list_find (λ p, within10 mx my p = true) (points s) with
  | Some (i, _) => Some (TCurrent i)
  | None => scanPolygons mx my 0 (polygons s)
  end.

(** [handleContextMenu], lines 169-179. *)
Definition handleContextMenu (mx my : Qc) (s : State) : State :=
  mkState (points s ++ [mkPoint mx my]) (mousePos s) true (polygons s)
          (draggedPoint s) (hoveredPoint s) (cursorStyle s).

(** [handleMouseMove], lines 181-224.  [None]: the handler does not
    complete (a [TypeError] on a missing polygon, or a sparse array). *)
Definition handleMouseMove (mx my : Qc) (s : State) : option State :=
  match draggedPoint s with
  | Some (TCurrent index) =>
      newPoints ← array_set (points s) index (mkPoint mx my);
      Some (mkState newPoints (mousePos s) (isDrawing s) (polygons s)
                    (draggedPoint s) (hoveredPoint s) (cursorStyle s))
  | Some (TPolygon index polygonIndex) =>
      polygon ← polygons s !! polygonIndex;
      newPoints ← array_set (Polygon.points polygon) index (mkPoint mx my);
      let newPolygons :=
        <[polygonIndex := Polygon.mk (calculateArea newPoints) newPoints]> (polygons s) in
      Some (mkState (points s) (mousePos s) (isDrawing s) newPolygons
                    (draggedPoint s) (hoveredPoint s) (cursorStyle s))
  | None =>
      let mousePos' := if isDrawing s then Some (mkPoint mx my) else mousePos s in
      match getPointAtPosition s mx my with
      | Some pointAtPosition =>
          Some (mkState (points s) mousePos' (isDrawing s) (polygons s)
                        (draggedPoint s) (Some pointAtPosition) pointer)
      | None =>
          Some (mkState (points s) mousePos' (isDrawing s) (polygons s)
                        (draggedPoint s) None crosshair)
      end
  end.

(** [handleMouseDown], lines 226-240; [button] is [e.button]. *)
Definition handleMouseDown (button : Z) (mx my : Qc) (s : State) : State :=
  if decide (button ≠ 0%Z) then s
  else
    match getPointAtPosition s mx my with
    | Some pointAtPosition =>
        mkState (points s) (mousePos s) (isDrawing s) (polygons s)
                (Some pointAtPosition) (hoveredPoint s) grabbing
    | None => s
    end.

(** [handleMouseUp], lines 242-247. *)
Definition handleMouseUp (s : State) : State :=
  match draggedPoint s with
  | Some _ =>
      mkState (points s) (mousePos s) (isDrawing s) (polygons s) None
              (hoveredPoint s)
              (match hoveredPoint s with Some _ => pointer | None => crosshair end)
  | None => s
  end.

(** [handleClick], lines 249-299. *)
Definition handleClick (mx my : Qc) (s : State) : State :=
  match points s with
  | [] => s
  | firstPoint :: _ =>
      match draggedPoint s with
      | Some _ => s
      | None =>
          if within10 mx my firstPoint then
            let calculatedArea := calculateArea (points s) in
            mkState [] None false
                    (polygons s ++ [Polygon.mk calculatedArea (points s)])
                    (draggedPoint s) (hoveredPoint s) (cursorStyle s)
          else s
      end
  end.

(** The events the canvas element is wired to, lines 302-308. *)
Inductive Event : Type :=
  | onContextMenu (mx my : Qc)
  | onMouseMove (mx my : Qc)
  | onMouseDown (button : Z) (mx my : Qc)
  | onMouseUp
  | onClick (mx my : Qc).

Definition step (e : Event) (s : State) : option State :=
  match e with
  | onContextMenu mx my => Some (handleContextMenu mx my s)
  | onMouseMove mx my => handleMouseMove mx my s
  | onMouseDown button mx my => Some (handleMouseDown button mx my s)
  | onMouseUp => Some (handleMouseUp s)
  | onClick mx my => Some (handleClick mx my s)
  end.

(** The states the component can be in: [initial], and every state a
    handler produces from one of them. *)
Inductive reachable : State → Prop :=
  | reachable_initial : reachable initial
  | reachable_step e s s' : reachable s → step e s = Some s' → reachable s'.

(** A drag target names a vertex that exists. *)
Definition valid_target (s : State) (t : Target) : Prop :=
  match t with
  | TCurrent index => (index < length (points s))%nat
  | TPolygon index polygonIndex =>
      ∃ polygon, polygons s !! polygonIndex = Some polygon
                 ∧ (index < length (Polygon.points polygon))%nat
  end.

(** Every stored polygon carries the area of its own points. *)
Definition areas_fresh (s : State) : Prop :=
  ∀ i polygon, polygons s !! i = Some polygon →
    Polygon.area polygon = calculateArea (Polygon.points polygon).

(** The active drag target, if any, names a vertex that exists. *)
Definition drag_valid (s : State) : Prop :=
  ∀ t, draggedPoint s = Some t → valid_target s t.

End App.

(** ** The variant without drag editing *)
Module NoDrag.

Record State : Type := mkState {
  points : list Point;
  mousePos : option Point;
  isDrawing : bool;
  polygons : list Polygon.t
}.

Definition initial : State := mkState [] None false [].

(** [calculateArea], lines 81-91 of this variant. *)
Definition calculateArea (polygonPoints : list Point) : Qc :=
  if decide (length polygonPoints < 3)%nat then 0
  else
    let area :=
      foldl (λ area i,
               let j := ((i + 1) mod length polygonPoints)%nat in
               let area := area + x (polygonPoints !!! i) * y (polygonPoints !!! j) in
               area - x (polygonPoints !!! j) * y (polygonPoints !!! i))
            0 (seq 0 (length polygonPoints)) in
    Math_abs (area / num 2).

(** [handleContextMenu], lines 133-143. *)
Definition handleContextMenu (mx my : Qc) (s : State) : State :=
  mkState (points s ++ [mkPoint mx my]) (mousePos s) true (polygons s).

(** [handleMouseMove], lines 145-153. *)
Definition handleMouseMove (mx my : Qc) (s : State) : State :=
  if negb (isDrawing s) then s
  else mkState (points s) (Some (mkPoint mx my)) (isDrawing s) (polygons s).

(** [handleClick], lines 155-202. *)
Definition handleClick (mx my : Qc) (s : State) : State :=
  match points s with
  | [] => s
  | firstPoint :: _ =>
      if within10 mx my firstPoint then
        let calculatedArea := calculateArea (points s) in
        mkState [] None false
                (polygons s ++ [Polygon.mk calculatedArea (points s)])
      else s
  end.

(** The events the canvas element of this variant is wired to, lines
    205-209. *)
Inductive Event : Type :=
  | onContextMenu (mx my : Qc)
  | onMouseMove (mx my : Qc)
  | onClick (mx my : Qc).

Definition step (e : Event) (s : State) : State :=
  match e with
  | onContextMenu mx my => handleContextMenu mx my s
  | onMouseMove mx my => handleMouseMove mx my s
  | onClick mx my => handleClick mx my s
  end.

(** The states of this variant: [initial], and every state a handler
    produces from one of them. *)
Inductive reachable : State → Prop :=
  | reachable_initial : reachable initial
  | reachable_step e s : reachable s → reachable (step e s).

End NoDrag.

(** ** The geometry as the specification words it *)
Module Spec.






(** A vertex [q] is a hit for the cursor: it passes the proximity test
    of the source, [distance <= 10], with the distance as the program
    computes it. *)
Definition near (mx my : Qc) (q : Point) : Prop :=
  within10 mx my q = true.


(** No vertex of [l] is a hit. *)
Definition none_near (mx my : Qc) (l : list Point) : Prop :=
  ∀ q, q ∈ l → ¬ near mx my q.


End Spec.


(** A point with integer coordinates. *)
Definition pt (a b : Z) : Point := mkPoint (num a) (num b).

(** ** [calculateArea] in double arithmetic

    The same function on IEEE 754 binary64 numbers, the numbers of the
    program: every [+], [-], [*], [/] rounds to nearest, ties to even, and
    overflow gives an infinity (then possibly NaN).  The text of
    [calculateArea] is the same in the two source files. *)
Module Double.
Import PrimFloat.
Local Open Scope float_scope.

Record Point : Type := mkPoint { x : float; y : float }.

#[global] Instance Point_inhabited : Inhabited Point := populate (mkPoint 0 0).

Definition shoelace_step (polygonPoints : list Point) (area : float) (i : nat) : float :=
  let j := ((i + 1) mod length polygonPoints)%nat in
  let area := area + x (polygonPoints !!! i) * y (polygonPoints !!! j) in
  let area := area - x (polygonPoints !!! j) * y (polygonPoints !!! i) in
  area.

Definition calculateArea (polygonPoints : list Point) : float :=
  if decide (length polygonPoints < 3)%nat then 0
  else
    let area := foldl (shoelace_step polygonPoints) 0 (seq 0 (length polygonPoints)) in
    abs (area / 2).

(** [distance <= 10] in double arithmetic, with [Math.pow(d, 2)] as the
    rounded product [d * d]. *)
Definition within10 (mx my : float) (p : Point) : bool :=
  let distance := sqrt ((mx - x p) * (mx - x p) + (my - y p) * (my - y p)) in
  distance <=? 10.

(** Literals. *)
Definition zero : float := 0.




(** A cursor position at distance [sqrt (100 + 2^-60)] from the origin. *)
Definition past_radius : float * float := (10, 0x1p-30).


End Double.

(** ** Doubles and the numbers they stand for *)
Module Rounding.







End Rounding.

(** ** Vocabulary of the further properties *)

(** The vertex a target names, if it exists. *)
Definition target_vertex (s : App.State) (t : Target) : option Point :=
  match t with
  | TCurrent index => App.points s !! index
  | TPolygon index polygonIndex =>
      polygon ← App.polygons s !! polygonIndex;
      Polygon.points polygon !! index
  end.

(** The part of the state the two variants share. *)
Definition forget (s : App.State) : NoDrag.State :=
  NoDrag.mkState (App.points s) (App.mousePos s) (App.isDrawing s) (App.polygons s).

(** The cursor style that goes with a drag target and a hover target. *)
Definition cursor_for (dragged hovered : option Target) : CursorStyle :=
  match dragged, hovered with
  | Some _, _ => grabbing
  | None, Some _ => pointer
  | None, None => crosshair
  end.

(** Event sequences: the handlers run one after the other, each on the
    state the previous one left. *)
Fixpoint run (es : list App.Event) (s : App.State) : option App.State :=
  match es with
  | [] => Some s
  | e :: es => s' ← App.step e s; run es s'
  end.

Definition run_nodrag (es : list NoDrag.Event) (s : NoDrag.State) : NoDrag.State :=
  foldl (λ s e, NoDrag.step e s) s es.

(** ** Drawing

    The calls the component makes on the 2D context of the canvas, in
    order.  A property assignment ([ctx.fillStyle = ...]) is a call like
    the others.  [arc x y r] is [ctx.arc(x, y, r, 0, 2 * Math.PI)], the
    full circle; [fillText area x y] is
    [ctx.fillText(`Area: ${area.toFixed(2)} px²`, x, y)]: the number is
    kept, its formatting by [toFixed] is not modelled. *)
Inductive CanvasOp : Type :=
  | clearRect (x0 y0 w h : Qc)
  | beginPath
  | moveTo (px py : Qc)
  | lineTo (px py : Qc)
  | closePath
  | fill
  | stroke
  | arc (px py r : Qc)
  | set_fillStyle (v : String.string)
  | set_strokeStyle (v : String.string)
  | set_lineWidth (v : Qc)
  | set_font (v : String.string)
  | set_textAlign (v : String.string)
  | set_textBaseline (v : String.string)
  | fillText (area : Qc) (px py : Qc).

(** The body of [points.forEach((point, index) => ...)], the same in
    [drawPolygon] and [redraw] of both variants: one handle. *)
Definition drawHandle (index : nat) (point : Point) : list CanvasOp :=
  [ beginPath;
    arc (x point) (y point) (num 5);
    set_fillStyle (if decide (index = 0%nat) then "#e74c3c" else "#3498db");
    fill;
    set_strokeStyle "#2c3e50";
    set_lineWidth (num 2);
    stroke ].

(** The area text of [drawPolygon], the same in both variants; [area] is
    [None] for [null]. *)
Definition drawAreaText (area : option Qc) (points : list Point) : list CanvasOp :=
  match area, points with
  | Some area, firstPoint :: _ =>
      [ set_font "bold 20px Arial";
        set_fillStyle "#2c3e50";
        set_textAlign "center";
        set_textBaseline "bottom";
        fillText area (x firstPoint) (y firstPoint - num 15) ]
  | _, _ => []
  end.

(** [drawPolygon] of [src/App.jsx], lines 4-52. *)
Definition drawPolygon (area : option Qc) (points : list Point) : list CanvasOp :=
  match points with
  | [] => []
  | firstPoint :: rest =>
      [ beginPath; moveTo (x firstPoint) (y firstPoint) ]
      ++ ((λ p, lineTo (x p) (y p)) <$> rest)
      ++ [ closePath;
           set_fillStyle "rgba(52, 152, 219, 0.3)"; fill;
           set_strokeStyle "#3498db"; set_lineWidth (num 2); stroke ]
  end
  ++ mjoin (imap drawHandle points)
  ++ drawAreaText area points.

(** [drawPolygon] of the variant without drag editing, lines 4-47. *)
Definition drawPolygon_nodrag (area : option Qc) (points : list Point) : list CanvasOp :=
  match points with
  | [] => []
  | firstPoint :: rest =>
      [ set_strokeStyle "#3498db"; set_lineWidth (num 2);
        beginPath; moveTo (x firstPoint) (y firstPoint) ]
      ++ ((λ p, lineTo (x p) (y p)) <$> rest)
      ++ [ lineTo (x firstPoint) (y firstPoint); stroke ]
  end
  ++ mjoin (imap drawHandle points)
  ++ drawAreaText area points.

(** [redraw], lines 129-167 (93-131 in the other variant, the same
    text), on a canvas of size [width] by [height]. *)
Definition redraw (width height : Qc) (points : list Point)
    (isDrawing : bool) (mousePos : option Point) : list CanvasOp :=
  [ clearRect 0 0 width height ]
  ++ match points with
     | [] => []
     | firstPoint :: rest =>
         [ set_strokeStyle "#3498db"; set_lineWidth (num 2);
           beginPath; moveTo (x firstPoint) (y firstPoint) ]
         ++ ((λ p, lineTo (x p) (y p)) <$> rest)
         ++ [ match isDrawing, mousePos with
              | true, Some m => lineTo (x m) (y m)
              | _, _ => lineTo (x firstPoint) (y firstPoint)
              end;
              stroke ]
     end
  ++ mjoin (imap drawHandle points).

(** The drawing effect of [src/App.jsx], lines 81-86: [redraw], then
    every stored polygon.  It runs when one of [points], [mousePos],
    [polygons] changes. *)
Definition render (width height : Qc) (s : App.State) : list CanvasOp :=
  redraw width height (App.points s) (App.isDrawing s) (App.mousePos s)
  ++ mjoin ((λ polygon,
               drawPolygon (Some (Polygon.area polygon)) (Polygon.points polygon))
            <$> App.polygons s).

(** The drawing effect of the other variant, lines 73-78.  It runs when
    one of [points], [mousePos] changes. *)
Definition render_nodrag (width height : Qc) (s : NoDrag.State) : list CanvasOp :=
  redraw width height (NoDrag.points s) (NoDrag.isDrawing s) (NoDrag.mousePos s)
  ++ mjoin ((λ polygon,
               drawPolygon_nodrag (Some (Polygon.area polygon)) (Polygon.points polygon))
            <$> NoDrag.polygons s).

(** The centres of the handles, and the area texts, among drawing
    calls. *)
Definition handle_centres (ops : list CanvasOp) : list Point :=
  omap (λ op, match op with arc px py _ => Some (mkPoint px py) | _ => None end) ops.

Definition area_texts (ops : list CanvasOp) : list (Qc * Point) :=
  omap (λ op, match op with
              | fillText area px py => Some (area, mkPoint px py)
              | _ => None
              end) ops.

(** ** Scenarios

    Concrete sessions, each the result of running the handlers on a
    sequence of events from the initial state. *)


(** Three vertices placed: the open chain (0,0),(10,0),(10,10). *)
Definition triangle_chain : App.State :=
  App.handleContextMenu (num 10) (num 10)
    (App.handleContextMenu (num 10) (num 0)
      (App.handleContextMenu (num 0) (num 0) App.initial)).

(** A fourth vertex: the open chain (0,0),(10,0),(10,10),(0,10). *)
Definition square_chain : App.State :=
  App.handleContextMenu (num 0) (num 10) triangle_chain.

(** The triangle closed by a click at (2,2). *)
Definition one_polygon : App.State :=
  App.handleClick (num 2) (num 2) triangle_chain.

(** The left button pressed at (12,0), on the handle of the vertex (10,0)
    of the stored triangle. *)
Definition dragging_polygon : App.State :=
  App.handleMouseDown 0 (num 12) (num 0) one_polygon.

(** One vertex placed at (0,0) and the left button pressed on it. *)
Definition dragging_chain : App.State :=
  App.handleMouseDown 0 (num 0) (num 0)
    (App.handleContextMenu (num 0) (num 0) App.initial).

(** A new chain started at (1,1), next to the vertex (0,0) of the stored
    triangle. *)
Definition overlapping_handles : App.State :=
  App.handleContextMenu (num 1) (num 1) one_polygon.

(** The same open chains in the variant without drag editing. *)
Definition two_vertex_chain_nodrag : NoDrag.State :=
  NoDrag.handleContextMenu (num 1) (num 1)
    (NoDrag.handleContextMenu (num 0) (num 0) NoDrag.initial).

(** * Properties *)

(** ** Numbers *)

Lemma Math_pow_2 (d : Qc) : Math_pow d 2 = d * d.
Proof. unfold Math_pow. simpl. ring. Qed.

(** ** The area *)


(** The loop of [calculateArea] reads inside the array only. *)
Lemma shoelace_indices_in_range (pp : list Point) (i : nat) :
  i ∈ seq 0 (length pp) →
  (i < length pp)%nat ∧ ((i + 1) mod length pp < length pp)%nat.
Proof.
  intros Hi. apply elem_of_seq in Hi.
  split; [lia | apply Nat.mod_upper_bound; lia].
Qed.


















(** ** The area in double arithmetic *)











(** The proximity test at the edge of the radius: the cursor
    (10, 2^-30) is farther than 10 from the origin, and the test without
    rounding rejects it; in double arithmetic the sum of squares rounds to
    100 and the test accepts it.  The theorems about the machine are
    stated on the result of the test for this reason. *)
Example within10_at_the_edge :
  within10 (num 10) (Q2Qc (1 # 1073741824)) (pt 0 0) = false
  ∧ Double.within10 (fst Double.past_radius) (snd Double.past_radius)
      (Double.mkPoint Double.zero Double.zero) = true.
Proof. split; vm_compute; reflexivity. Qed.





(** C10.  The two variants compute the same area on every list of
    points. *)
Theorem calculateArea_variants_agree (pts : list Point) :
  App.calculateArea pts = NoDrag.calculateArea pts.
Proof. reflexivity. Qed.

(** ** The hit test *)

Section hit_test.
Variables mx my : Qc.

Local Abbreviation hit := (λ p : Point, within10 mx my p = true).

Lemma near_within10 (q : Point) : Spec.near mx my q ↔ within10 mx my q = true.
Proof. reflexivity. Qed.






End hit_test.


(** ** Invariants of the reachable states *)

Lemma array_set_Some (a : list Point) (i : nat) (v : Point) :
  (i < length a)%nat → array_set a i v = Some (<[i := v]> a).
Proof.
  intros Hi. unfold array_set.
  destruct (decide (i < length a)%nat); [reflexivity | contradiction].
Qed.

Lemma array_set_length (a a' : list Point) (i : nat) (v : Point) :
  array_set a i v = Some a' → (length a ≤ length a')%nat ∧ (i < length a')%nat.
Proof.
  unfold array_set. intros H.
  destruct (decide (i < length a)%nat).
  - injection H as <-. rewrite length_insert. lia.
  - destruct (decide (i = length a)); [|discriminate H].
    injection H as <-. rewrite length_app. simpl. lia.
Qed.

Lemma scanPolygons_valid (mx my : Qc) (store : list Polygon.t) (k : nat) (t : Target) :
  App.scanPolygons mx my k store = Some t →
  ∃ i polygonIndex polygon,
    t = TPolygon i (k + polygonIndex)
    ∧ store !! polygonIndex = Some polygon
    ∧ (i < length (Polygon.points polygon))%nat.
Proof.
  revert k. induction store as [|polygon store IH]; intros k;
    cbn [App.scanPolygons]; [discriminate|].
  destruct (list_find _ (Polygon.points polygon)) as [[i p]|] eqn:Hfind.
  - intros [= <-]. exists i, 0%nat, polygon.
    apply list_find_Some in Hfind as (Hp & _ & _).
    apply lookup_lt_Some in Hp.
    rewrite Nat.add_0_r. repeat split. exact Hp.
  - intros Ht. destruct (IH (S k) Ht) as (i & polygonIndex & target & -> & Hl & Hi).
    exists i, (S polygonIndex), target. repeat split; [f_equal; lia | exact Hl | exact Hi].
Qed.

(** Whatever the hit test returns names a vertex that exists. *)
Lemma getPointAtPosition_valid (s : App.State) (mx my : Qc) (t : Target) :
  App.getPointAtPosition s mx my = Some t → App.valid_target s t.
Proof.
  unfold App.getPointAtPosition.
  destruct (list_find _ (App.points s)) as [[i p]|] eqn:Hfind.
  - intros [= <-]. apply list_find_Some in Hfind as (Hp & _ & _).
    apply lookup_lt_Some in Hp. exact Hp.
  - intros Ht.
    destruct (scanPolygons_valid _ _ _ _ _ Ht) as (i & polygonIndex & polygon & -> & Hl & Hi).
    exists polygon. split; [exact Hl | exact Hi].
Qed.

Lemma step_areas_fresh (e : App.Event) (s s' : App.State) :
  App.areas_fresh s → App.step e s = Some s' → App.areas_fresh s'.
Proof.
  intros Hs Hstep. destruct e as [mx my|mx my|button mx my| |mx my];
    cbn [App.step] in Hstep.
  - injection Hstep as <-. exact Hs.
  - unfold App.handleMouseMove in Hstep.
    destruct (App.draggedPoint s) as [[index|index polygonIndex]|].
    + destruct (array_set (App.points s) index _); [|discriminate Hstep].
      injection Hstep as <-. exact Hs.
    + destruct (App.polygons s !! polygonIndex) as [polygon|] eqn:Hl;
        [|discriminate Hstep].
      cbn [mbind option_bind] in Hstep.
      destruct (array_set (Polygon.points polygon) index _) as [newPoints|];
        [|discriminate Hstep].
      injection Hstep as <-. intros i q. cbn [App.polygons].
      destruct (decide (i = polygonIndex)) as [->|Hne].
      * rewrite list_lookup_insert_eq by (apply lookup_lt_Some in Hl; exact Hl).
        intros [= <-]. reflexivity.
      * rewrite list_lookup_insert_ne by congruence. apply Hs.
    + destruct (App.getPointAtPosition s mx my); injection Hstep as <-; exact Hs.
  - injection Hstep as <-. unfold App.handleMouseDown.
    destruct (decide (button ≠ 0%Z)); [exact Hs|].
    destruct (App.getPointAtPosition s mx my); exact Hs.
  - injection Hstep as <-. unfold App.handleMouseUp.
    destruct (App.draggedPoint s); exact Hs.
  - injection Hstep as <-. unfold App.handleClick.
    destruct (App.points s) as [|firstPoint rest] eqn:Hpts; [exact Hs|].
    destruct (App.draggedPoint s); [exact Hs|].
    destruct (within10 mx my firstPoint); [|exact Hs].
    intros i q. cbn [App.polygons]. intros Hq.
    apply lookup_app_Some in Hq as [Hq|[_ Hq]]; [exact (Hs i q Hq)|].
    apply list_lookup_singleton_Some in Hq as [_ <-]. reflexivity.
Qed.

Lemma step_drag_valid (e : App.Event) (s s' : App.State) :
  App.drag_valid s → App.step e s = Some s' → App.drag_valid s'.
Proof.
  intros Hs Hstep. destruct e as [mx my|mx my|button mx my| |mx my];
    cbn [App.step] in Hstep.
  - injection Hstep as <-. intros t Ht. specialize (Hs t Ht).
    destruct t as [index|index polygonIndex]; [|exact Hs].
    cbn in Hs |- *. rewrite length_app. lia.
  - unfold App.handleMouseMove in Hstep.
    destruct (App.draggedPoint s) as [[index|index polygonIndex]|] eqn:Hdrag.
    + destruct (array_set (App.points s) index _) as [newPoints|] eqn:Hset;
        [|discriminate Hstep].
      injection Hstep as <-. intros t Ht. cbn [App.draggedPoint] in Ht.
      injection Ht as <-.
      apply array_set_length in Hset as [_ Hi]. exact Hi.
    + destruct (App.polygons s !! polygonIndex) as [polygon|] eqn:Hl;
        [|discriminate Hstep].
      cbn [mbind option_bind] in Hstep.
      destruct (array_set (Polygon.points polygon) index _) as [newPoints|] eqn:Hset;
        [|discriminate Hstep].
      injection Hstep as <-. intros t Ht. cbn [App.draggedPoint] in Ht.
      injection Ht as <-.
      eexists. cbn [App.polygons]. split.
      * apply list_lookup_insert_eq. apply lookup_lt_Some in Hl. exact Hl.
      * apply array_set_length in Hset as [_ Hi]. exact Hi.
    + destruct (App.getPointAtPosition s mx my) as [target|];
        injection Hstep as <-;
        intros t Ht; cbn [App.draggedPoint] in Ht; congruence.
  - injection Hstep as <-. unfold App.handleMouseDown.
    destruct (decide (button ≠ 0%Z)); [exact Hs|].
    destruct (App.getPointAtPosition s mx my) as [target|] eqn:Hhit; [|exact Hs].
    intros t [= <-]. exact (getPointAtPosition_valid s mx my target Hhit).
  - injection Hstep as <-. unfold App.handleMouseUp.
    destruct (App.draggedPoint s) as [active|]; [|exact Hs].
    intros t Ht. discriminate Ht.
  - injection Hstep as <-. unfold App.handleClick.
    destruct (App.points s) as [|firstPoint rest]; [exact Hs|].
    destruct (App.draggedPoint s) as [active|] eqn:Hdrag; [exact Hs|].
    destruct (within10 mx my firstPoint); [|exact Hs].
    intros t Ht. cbn [App.draggedPoint] in Ht. congruence.
Qed.

(** In every reachable state the cached areas are those of the stored
    points and the drag target names an existing vertex. *)
Lemma reachable_invariant (s : App.State) :
  App.reachable s → App.areas_fresh s ∧ App.drag_valid s.
Proof.
  induction 1 as [|e s s' _ [IHa IHd] Hstep].
  - split.
    + intros i q Hq. discriminate Hq.
    + intros t Ht. discriminate Ht.
  - split; [exact (step_areas_fresh e s s' IHa Hstep)
           | exact (step_drag_valid e s s' IHd Hstep)].
Qed.

(** The state machine is total on the reachable states: no handler
    fails there. *)
Lemma reachable_step_total (e : App.Event) (s : App.State) :
  App.reachable s → ∃ s', App.step e s = Some s'.
Proof.
  intros Hr. destruct (reachable_invariant s Hr) as [_ Hd].
  destruct e as [mx my|mx my|button mx my| |mx my]; cbn [App.step];
    try (eexists; reflexivity).
  unfold App.handleMouseMove.
  destruct (App.draggedPoint s) as [[index|index polygonIndex]|] eqn:Hdrag.
  - specialize (Hd _ Hdrag). cbn in Hd.
    rewrite (array_set_Some _ _ _ Hd). eexists; reflexivity.
  - destruct (Hd _ Hdrag) as (polygon & Hl & Hi).
    rewrite Hl. cbn [mbind option_bind].
    rewrite (array_set_Some _ _ _ Hi). eexists; reflexivity.
  - destruct (App.getPointAtPosition s mx my); eexists; reflexivity.
Qed.

(** ** Scenarios are reachable *)

Lemma reachable_handleContextMenu (mx my : Qc) (s : App.State) :
  App.reachable s → App.reachable (App.handleContextMenu mx my s).
Proof. intros Hr. exact (App.reachable_step (App.onContextMenu mx my) s _ Hr eq_refl). Qed.

Lemma reachable_handleClick (mx my : Qc) (s : App.State) :
  App.reachable s → App.reachable (App.handleClick mx my s).
Proof. intros Hr. exact (App.reachable_step (App.onClick mx my) s _ Hr eq_refl). Qed.

Lemma reachable_handleMouseDown (button : Z) (mx my : Qc) (s : App.State) :
  App.reachable s → App.reachable (App.handleMouseDown button mx my s).
Proof.
  intros Hr. exact (App.reachable_step (App.onMouseDown button mx my) s _ Hr eq_refl).
Qed.

Lemma reachable_triangle_chain : App.reachable triangle_chain.
Proof. repeat apply reachable_handleContextMenu. apply App.reachable_initial. Qed.

Lemma reachable_dragging_polygon : App.reachable dragging_polygon.
Proof.
  apply reachable_handleMouseDown, reachable_handleClick, reachable_triangle_chain.
Qed.

Lemma dragging_polygon_target :
  App.draggedPoint dragging_polygon = Some (TPolygon 1 0).
Proof. vm_compute. reflexivity. Qed.

(** ** Closing *)


Lemma handleClick_near (s : App.State) (mx my : Qc) (firstPoint : Point) (rest : list Point) :
  App.points s = firstPoint :: rest →
  App.draggedPoint s = None →
  Spec.near mx my firstPoint →
  App.handleClick mx my s
  = App.mkState [] None false
      (App.polygons s ++ [Polygon.mk (App.calculateArea (App.points s)) (App.points s)])
      None (App.hoveredPoint s) (App.cursorStyle s).
Proof.
  intros Hpts Hdrag Hnear. unfold App.handleClick. rewrite Hdrag, Hpts.
  unfold Spec.near in Hnear. rewrite Hnear. reflexivity.
Qed.


(** Deciding the proximity test at a concrete cursor and vertex. *)
Ltac prove_near :=
  unfold Spec.near; vm_compute; reflexivity.



(** The end-to-end scenario: the square (0,0),(10,0),(10,10),(0,10)
    closed at (1,1) becomes one stored polygon of area 100, with the chain
    empty and the mode idle. *)
Example end_to_end_square :
  App.points (App.handleClick (num 1) (num 1) square_chain) = []
  ∧ App.isDrawing (App.handleClick (num 1) (num 1) square_chain) = false
  ∧ App.mousePos (App.handleClick (num 1) (num 1) square_chain) = None
  ∧ App.polygons (App.handleClick (num 1) (num 1) square_chain)
    = Polygon.mk (num 100) [pt 0 0; pt 10 0; pt 10 10; pt 0 10] :: [].
Proof.
  rewrite (handleClick_near square_chain (num 1) (num 1) (pt 0 0)
             [pt 10 0; pt 10 10; pt 0 10] eq_refl eq_refl ltac:(prove_near)).
  repeat split.
  cbn [App.polygons]. change (App.polygons square_chain) with (@nil Polygon.t).
  cbn [app]. do 2 f_equal.
  apply Qc_is_canon. vm_compute. reflexivity.
Qed.




(** ** Gestures while a drag is active *)

(** C5 as stated fails: with the vertex (0,0) of the chain grabbed, the
    vertex-placing gesture at (5,5) still appends to the chain. *)
Lemma place_vertex_while_dragging_counterexample :
  App.draggedPoint dragging_chain = Some (TCurrent 0)
  ∧ App.points dragging_chain = pt 0 0 :: []
  ∧ App.points (App.handleContextMenu (num 5) (num 5) dragging_chain)
    = [pt 0 0; pt 5 5].
Proof. repeat split. Qed.

(** C5, amended.  While a drag target is active, a click is rejected and
    the state is exactly as before; the vertex-placing gesture is not
    gated on the drag: it appends the cursor position to the chain and
    enters drawing mode, leaving the store and the drag target as they
    were. *)
Theorem drag_rejects_click_only (s : App.State) (t : Target) (mx my : Qc) :
  App.draggedPoint s = Some t →
  App.handleClick mx my s = s
  ∧ App.handleContextMenu mx my s
    = App.mkState (App.points s ++ [mkPoint mx my]) (App.mousePos s) true
        (App.polygons s) (Some t) (App.hoveredPoint s) (App.cursorStyle s).
Proof.
  intros Hdrag. split.
  - unfold App.handleClick. rewrite Hdrag.
    destruct (App.points s); reflexivity.
  - unfold App.handleContextMenu. rewrite Hdrag. reflexivity.
Qed.

Lemma drag_rejects_click_only_witness :
  App.handleClick (num 0) (num 0) dragging_chain = dragging_chain
  ∧ App.handleContextMenu (num 5) (num 5) dragging_chain
    = App.mkState (App.points dragging_chain ++ [mkPoint (num 5) (num 5)])
        (App.mousePos dragging_chain) true (App.polygons dragging_chain)
        (Some (TCurrent 0)) (App.hoveredPoint dragging_chain)
        (App.cursorStyle dragging_chain).
Proof.
  assert (App.draggedPoint dragging_chain = Some (TCurrent 0)) as Hdrag
    by (vm_compute; reflexivity).
  split.
  - exact (proj1 (drag_rejects_click_only dragging_chain (TCurrent 0)
                    (num 0) (num 0) Hdrag)).
  - exact (proj2 (drag_rejects_click_only dragging_chain (TCurrent 0)
                    (num 5) (num 5) Hdrag)).
Defined.

(** ** The preview point *)

(** C9.  A pointer move in drawing mode with no active drag records the
    cursor as the preview point and leaves the chain, the store, the mode
    and the (absent) drag target as they were; in the drag-editing
    variant the same handler also refreshes the hover target.  In the
    variant without drag editing the preview point is the only field
    that changes. *)
Theorem handleMouseMove_preview :
  (∀ (s : App.State) (mx my : Qc),
     App.isDrawing s = true →
     App.draggedPoint s = None →
     ∃ s', App.handleMouseMove mx my s = Some s'
       ∧ App.mousePos s' = Some (mkPoint mx my)
       ∧ App.points s' = App.points s
       ∧ App.polygons s' = App.polygons s
       ∧ App.isDrawing s' = true
       ∧ App.draggedPoint s' = None
       ∧ App.hoveredPoint s' = App.getPointAtPosition s mx my)
  ∧ (∀ (s : NoDrag.State) (mx my : Qc),
     NoDrag.isDrawing s = true →
     NoDrag.handleMouseMove mx my s
     = NoDrag.mkState (NoDrag.points s) (Some (mkPoint mx my)) true
         (NoDrag.polygons s)).
Proof.
  split.
  - intros s mx my Hdrawing Hdrag. unfold App.handleMouseMove.
    rewrite Hdrag, Hdrawing.
    destruct (App.getPointAtPosition s mx my) as [target|];
      eexists; (split; [reflexivity|]);
      cbn [App.mousePos App.points App.polygons App.isDrawing App.draggedPoint
           App.hoveredPoint];
      rewrite ?Hdrawing, ?Hdrag; repeat split; assumption.
  - intros s mx my Hdrawing. unfold NoDrag.handleMouseMove.
    rewrite Hdrawing. reflexivity.
Qed.

Lemma handleMouseMove_preview_witness :
  (∃ s', App.handleMouseMove (num 7) (num 8) triangle_chain = Some s'
     ∧ App.mousePos s' = Some (mkPoint (num 7) (num 8))
     ∧ App.points s' = App.points triangle_chain
     ∧ App.polygons s' = App.polygons triangle_chain
     ∧ App.isDrawing s' = true
     ∧ App.draggedPoint s' = None
     ∧ App.hoveredPoint s' = App.getPointAtPosition triangle_chain (num 7) (num 8))
  ∧ NoDrag.handleMouseMove (num 7) (num 8) two_vertex_chain_nodrag
    = NoDrag.mkState (NoDrag.points two_vertex_chain_nodrag)
        (Some (mkPoint (num 7) (num 8))) true
        (NoDrag.polygons two_vertex_chain_nodrag).
Proof.
  split.
  - apply (proj1 handleMouseMove_preview triangle_chain); reflexivity.
  - apply (proj2 handleMouseMove_preview two_vertex_chain_nodrag); reflexivity.
Defined.

(** ** Dragging a vertex of a stored polygon *)

(** What one drag step on vertex [index] of polygon [polygonIndex] does
    in a reachable state. *)
Lemma handleMouseMove_drag_polygon (s : App.State) (mx my : Qc)
    (index polygonIndex : nat) :
  App.reachable s →
  App.draggedPoint s = Some (TPolygon index polygonIndex) →
  ∃ old,
    App.polygons s !! polygonIndex = Some old
    ∧ (index < length (Polygon.points old))%nat
    ∧ App.handleMouseMove mx my s
      = Some (App.mkState (App.points s) (App.mousePos s) (App.isDrawing s)
                (<[polygonIndex :=
                     Polygon.mk
                       (App.calculateArea (<[index := mkPoint mx my]> (Polygon.points old)))
                       (<[index := mkPoint mx my]> (Polygon.points old))]>
                   (App.polygons s))
                (App.draggedPoint s) (App.hoveredPoint s) (App.cursorStyle s)).
Proof.
  intros Hr Hdrag.
  destruct (reachable_invariant s Hr) as [_ Hvalid].
  destruct (Hvalid _ Hdrag) as (old & Hl & Hi).
  exists old. split; [exact Hl|]. split; [exact Hi|].
  unfold App.handleMouseMove. rewrite Hdrag, Hl. cbn [mbind option_bind].
  rewrite (array_set_Some _ _ _ Hi). reflexivity.
Qed.



(** Which updates of the store a handler can make: none, one polygon
    replaced in place, or one polygon appended by a closing click. *)
Lemma step_store (e : App.Event) (s s' : App.State) :
  App.step e s = Some s' →
  App.polygons s' = App.polygons s
  ∨ (∃ i polygon, (i < length (App.polygons s))%nat
                  ∧ App.polygons s' = <[i := polygon]> (App.polygons s))
  ∨ (∃ mx my polygon, e = App.onClick mx my
                      ∧ App.polygons s' = App.polygons s ++ [polygon]).
Proof.
  intros Hstep. destruct e as [mx my|mx my|button mx my| |mx my];
    cbn [App.step] in Hstep.
  - injection Hstep as <-. left. reflexivity.
  - unfold App.handleMouseMove in Hstep.
    destruct (App.draggedPoint s) as [[index|index polygonIndex]|].
    + destruct (array_set (App.points s) index _); [|discriminate Hstep].
      injection Hstep as <-. left. reflexivity.
    + destruct (App.polygons s !! polygonIndex) as [polygon|] eqn:Hl;
        [|discriminate Hstep].
      cbn [mbind option_bind] in Hstep.
      destruct (array_set (Polygon.points polygon) index _) as [newPoints|];
        [|discriminate Hstep].
      injection Hstep as <-. right. left.
      eexists. eexists. split; [apply lookup_lt_Some in Hl; exact Hl|reflexivity].
    + destruct (App.getPointAtPosition s mx my); injection Hstep as <-;
        left; reflexivity.
  - injection Hstep as <-. left. unfold App.handleMouseDown.
    destruct (decide (button ≠ 0%Z)); [reflexivity|].
    destruct (App.getPointAtPosition s mx my); reflexivity.
  - injection Hstep as <-. left. unfold App.handleMouseUp.
    destruct (App.draggedPoint s); reflexivity.
  - injection Hstep as <-. unfold App.handleClick.
    destruct (App.points s) as [|firstPoint rest]; [left; reflexivity|].
    destruct (App.draggedPoint s); [left; reflexivity|].
    destruct (within10 mx my firstPoint); [|left; reflexivity].
    right. right. eexists. eexists. eexists. split; reflexivity.
Qed.

(** C8.  A drag step on vertex [index] of stored polygon [polygonIndex]
    replaces that vertex by the cursor and recomputes that polygon's area;
    the other polygons, the other vertices of the polygon, its number of
    vertices, the length and order of the store, and the rest of the
    state are unchanged.  No handler removes a polygon or reorders the
    store: a step leaves the store as it is, replaces one polygon in
    place, or (a closing click) appends one. *)
Theorem drag_frame :
  (∀ (s : App.State) (mx my : Qc) (index polygonIndex : nat),
     App.reachable s →
     App.draggedPoint s = Some (TPolygon index polygonIndex) →
     ∃ s' old new,
       App.handleMouseMove mx my s = Some s'
       ∧ App.polygons s !! polygonIndex = Some old
       ∧ App.polygons s' !! polygonIndex = Some new
       ∧ length (App.polygons s') = length (App.polygons s)
       ∧ (∀ j, j ≠ polygonIndex → App.polygons s' !! j = App.polygons s !! j)
       ∧ length (Polygon.points new) = length (Polygon.points old)
       ∧ (∀ k, k ≠ index → Polygon.points new !! k = Polygon.points old !! k)
       ∧ Polygon.points new !! index = Some (mkPoint mx my)
       ∧ Polygon.area new = App.calculateArea (Polygon.points new)
       ∧ App.points s' = App.points s
       ∧ App.mousePos s' = App.mousePos s
       ∧ App.isDrawing s' = App.isDrawing s
       ∧ App.draggedPoint s' = App.draggedPoint s)
  ∧ (∀ (e : App.Event) (s s' : App.State),
     App.step e s = Some s' →
     App.polygons s' = App.polygons s
     ∨ (∃ i polygon, (i < length (App.polygons s))%nat
                     ∧ App.polygons s' = <[i := polygon]> (App.polygons s))
     ∨ (∃ mx my polygon, e = App.onClick mx my
                         ∧ App.polygons s' = App.polygons s ++ [polygon])).
Proof.
  split; [|exact step_store].
  intros s mx my index polygonIndex Hr Hdrag.
  destruct (handleMouseMove_drag_polygon s mx my index polygonIndex Hr Hdrag)
    as (old & Hl & Hi & Hmove).
  eexists. exists old. eexists. split; [exact Hmove|].
  cbn [App.polygons App.points App.mousePos App.isDrawing App.draggedPoint].
  split; [exact Hl|].
  split; [apply list_lookup_insert_eq; apply lookup_lt_Some in Hl; exact Hl|].
  cbn [Polygon.points Polygon.area].
  split; [apply length_insert|].
  split; [intros j Hj; apply list_lookup_insert_ne; congruence|].
  split; [apply length_insert|].
  split; [intros k Hk; apply list_lookup_insert_ne; congruence|].
  split; [apply list_lookup_insert_eq; exact Hi|].
  repeat split.
Qed.

Lemma drag_frame_witness :
  ∃ s' old new,
    App.handleMouseMove (num 12) (num 3) dragging_polygon = Some s'
    ∧ App.polygons dragging_polygon !! 0%nat = Some old
    ∧ App.polygons s' !! 0%nat = Some new
    ∧ length (App.polygons s') = length (App.polygons dragging_polygon)
    ∧ (∀ j, j ≠ 0%nat → App.polygons s' !! j = App.polygons dragging_polygon !! j)
    ∧ length (Polygon.points new) = length (Polygon.points old)
    ∧ (∀ k, k ≠ 1%nat → Polygon.points new !! k = Polygon.points old !! k)
    ∧ Polygon.points new !! 1%nat = Some (mkPoint (num 12) (num 3))
    ∧ Polygon.area new = App.calculateArea (Polygon.points new)
    ∧ App.points s' = App.points dragging_polygon
    ∧ App.mousePos s' = App.mousePos dragging_polygon
    ∧ App.isDrawing s' = App.isDrawing dragging_polygon
    ∧ App.draggedPoint s' = App.draggedPoint dragging_polygon.
Proof.
  exact (proj1 drag_frame dragging_polygon (num 12) (num 3) 1%nat 0%nat
           reachable_dragging_polygon dragging_polygon_target).
Defined.

(** ** The hit test on a concrete session *)

Lemma one_polygon_state :
  one_polygon
  = App.mkState [] None false
      (Polygon.mk (App.calculateArea [pt 0 0; pt 10 0; pt 10 10])
                  [pt 0 0; pt 10 0; pt 10 10] :: [])
      None None crosshair.
Proof.
  unfold one_polygon.
  rewrite (handleClick_near triangle_chain (num 2) (num 2) (pt 0 0)
             [pt 10 0; pt 10 10] eq_refl eq_refl ltac:(prove_near)).
  reflexivity.
Qed.

Lemma overlapping_handles_state :
  overlapping_handles
  = App.mkState (pt 1 1 :: []) None true
      (Polygon.mk (App.calculateArea [pt 0 0; pt 10 0; pt 10 10])
                  [pt 0 0; pt 10 0; pt 10 10] :: [])
      None None crosshair.
Proof. unfold overlapping_handles. rewrite one_polygon_state. reflexivity. Qed.


(** * Further properties *)

(** ** The hit test, read from its result *)

Lemma scanPolygons_hit (mx my : Qc) (store : list Polygon.t) (k : nat) (t : Target) :
  App.scanPolygons mx my k store = Some t →
  ∃ i polygonIndex polygon p,
    t = TPolygon i (k + polygonIndex)
    ∧ store !! polygonIndex = Some polygon
    ∧ Polygon.points polygon !! i = Some p
    ∧ within10 mx my p = true.
Proof.
  revert k. induction store as [|polygon store IH]; intros k;
    cbn [App.scanPolygons]; [discriminate|].
  destruct (list_find _ (Polygon.points polygon)) as [[i p]|] eqn:Hfind.
  - intros [= <-]. exists i, 0%nat, polygon, p.
    apply list_find_Some in Hfind as (Hp & Hhit & _).
    rewrite Nat.add_0_r. repeat split; assumption.
  - intros Ht.
    destruct (IH (S k) Ht) as (i & polygonIndex & target & p & -> & Hl & Hp & Hhit).
    exists i, (S polygonIndex), target, p.
    repeat split; [f_equal; lia | exact Hl | exact Hp | exact Hhit].
Qed.

Lemma scanPolygons_miss (mx my : Qc) (store : list Polygon.t) (k : nat) :
  App.scanPolygons mx my k store = None →
  ∀ polygon, polygon ∈ store → Spec.none_near mx my (Polygon.points polygon).
Proof.
  revert k. induction store as [|polygon store IH]; intros k;
    cbn [App.scanPolygons]; intros Hscan other Hother.
  - apply elem_of_nil in Hother. contradiction.
  - destruct (list_find _ (Polygon.points polygon)) as [[i p]|] eqn:Hfind;
      [discriminate Hscan|].
    apply elem_of_cons in Hother as [->|Hother]; [|exact (IH (S k) Hscan other Hother)].
    intros q Hq Hnear.
    apply list_find_None in Hfind. rewrite list.Forall_forall in Hfind.
    exact (Hfind q Hq (proj1 (near_within10 mx my q) Hnear)).
Qed.

Lemma getPointAtPosition_sound_aux (s : App.State) (mx my : Qc) :
  (∀ t, App.getPointAtPosition s mx my = Some t →
        ∃ p, target_vertex s t = Some p ∧ Spec.near mx my p)
  ∧ (App.getPointAtPosition s mx my = None →
     Spec.none_near mx my (App.points s)
     ∧ ∀ polygon, polygon ∈ App.polygons s →
                  Spec.none_near mx my (Polygon.points polygon)).
Proof.
  unfold App.getPointAtPosition. split.
  - intros t.
    destruct (list_find _ (App.points s)) as [[i p]|] eqn:Hfind.
    + intros [= <-]. apply list_find_Some in Hfind as (Hp & Hhit & _).
      exists p. split; [exact Hp | exact (proj2 (near_within10 mx my p) Hhit)].
    + intros Ht.
      destruct (scanPolygons_hit _ _ _ _ _ Ht)
        as (i & polygonIndex & polygon & p & -> & Hl & Hp & Hhit).
      exists p. cbn [target_vertex Nat.add]. rewrite Hl. cbn [mbind option_bind].
      split; [exact Hp | exact (proj2 (near_within10 mx my p) Hhit)].
  - destruct (list_find _ (App.points s)) as [[i p]|] eqn:Hfind; [discriminate|].
    intros Hscan. split; [|exact (scanPolygons_miss _ _ _ _ Hscan)].
    intros q Hq Hnear.
    apply list_find_None in Hfind. rewrite list.Forall_forall in Hfind.
    exact (Hfind q Hq (proj1 (near_within10 mx my q) Hnear)).
Qed.



Lemma within10_self (mx my : Qc) : within10 mx my (mkPoint mx my) = true.
Proof.
  unfold within10. rewrite !Math_pow_2. cbn [x y].
  replace ((mx - mx) * (mx - mx) + (my - my) * (my - my)) with (0 : Qc) by ring.
  vm_compute. reflexivity.
Qed.



(** ** Invariants of the sessions *)

Lemma array_set_nonempty (a a' : list Point) (i : nat) (v : Point) :
  array_set a i v = Some a' → a' ≠ [].
Proof.
  intros Hset Hnil. apply array_set_length in Hset as [_ Hi].
  rewrite Hnil in Hi. simpl in Hi. lia.
Qed.

Lemma reachable_dragging_chain : App.reachable dragging_chain.
Proof.
  apply reachable_handleMouseDown, reachable_handleContextMenu, App.reachable_initial.
Qed.

Lemma dragging_chain_target : App.draggedPoint dragging_chain = Some (TCurrent 0).
Proof. vm_compute. reflexivity. Qed.

Lemma reachable_mode_inv (s : App.State) :
  App.reachable s →
  (App.isDrawing s = true ↔ App.points s ≠ [])
  ∧ (App.isDrawing s = false → App.mousePos s = None).
Proof.
  induction 1 as [|e s s' Hr [IHmode IHpos] Hstep].
  - split; [split; [discriminate | intros H; destruct H; reflexivity] | reflexivity].
  - destruct (reachable_invariant s Hr) as [_ Hvalid].
    destruct e as [mx my|mx my|button mx my| |mx my]; cbn [App.step] in Hstep.
    + injection Hstep as <-. cbn [App.handleContextMenu App.isDrawing App.points
                                   App.mousePos].
      split; [|discriminate]. split; [|reflexivity].
      intros _ Hnil. apply app_eq_nil in Hnil as [_ Hnil]. discriminate Hnil.
    + unfold App.handleMouseMove in Hstep.
      destruct (App.draggedPoint s) as [[index|index polygonIndex]|] eqn:Hdrag.
      * pose proof (Hvalid _ Hdrag) as Hi. cbn in Hi.
        rewrite (array_set_Some _ _ _ Hi) in Hstep. injection Hstep as <-.
        cbn [App.isDrawing App.points App.mousePos].
        split; [|exact IHpos]. rewrite IHmode. split; intros Hne Hnil.
        -- apply (f_equal length) in Hnil. rewrite length_insert in Hnil.
           simpl in Hnil. lia.
        -- rewrite Hnil in Hi. simpl in Hi. lia.
      * destruct (App.polygons s !! polygonIndex) as [polygon|];
          [|discriminate Hstep].
        cbn [mbind option_bind] in Hstep.
        destruct (array_set (Polygon.points polygon) index _); [|discriminate Hstep].
        injection Hstep as <-. split; [exact IHmode | exact IHpos].
      * assert (App.isDrawing s' = App.isDrawing s ∧ App.points s' = App.points s
                ∧ App.mousePos s'
                  = if App.isDrawing s then Some (mkPoint mx my) else App.mousePos s)
          as (Hd & Hp & Hm)
          by (destruct (App.getPointAtPosition s mx my); injection Hstep as <-;
              repeat split).
        rewrite Hd, Hp, Hm. split; [exact IHmode|].
        intros Hfalse. rewrite Hfalse. exact (IHpos Hfalse).
    + injection Hstep as <-. unfold App.handleMouseDown.
      destruct (decide (button ≠ 0%Z)); [split; [exact IHmode | exact IHpos]|].
      destruct (App.getPointAtPosition s mx my); (split; [exact IHmode | exact IHpos]).
    + injection Hstep as <-. unfold App.handleMouseUp.
      destruct (App.draggedPoint s); (split; [exact IHmode | exact IHpos]).
    + injection Hstep as <-. unfold App.handleClick.
      destruct (App.points s) as [|firstPoint rest] eqn:Hpts;
        [rewrite Hpts; split; [exact IHmode | exact IHpos]|].
      destruct (App.draggedPoint s);
        [rewrite Hpts; split; [exact IHmode | exact IHpos]|].
      destruct (within10 mx my firstPoint);
        [|rewrite Hpts; split; [exact IHmode | exact IHpos]].
      cbn [App.isDrawing App.points App.mousePos].
      split; [|reflexivity]. split; [discriminate | intros H; destruct H; reflexivity].
Qed.

(** X7.  In every reachable state the component is in drawing mode exactly
    when the chain is non-empty, and outside drawing mode there is no
    preview point. *)
Theorem reachable_mode (s : App.State) :
  App.reachable s →
  (App.isDrawing s = true ↔ App.points s ≠ [])
  ∧ (App.isDrawing s = false → App.mousePos s = None).
Proof. exact (reachable_mode_inv s). Qed.

Lemma reachable_mode_witness :
  (App.isDrawing dragging_chain = true ↔ App.points dragging_chain ≠ [])
  ∧ (App.isDrawing dragging_chain = false → App.mousePos dragging_chain = None).
Proof. exact (reachable_mode dragging_chain reachable_dragging_chain). Defined.

Lemma step_polygons_nonempty (e : App.Event) (s s' : App.State) :
  (∀ i polygon, App.polygons s !! i = Some polygon → Polygon.points polygon ≠ []) →
  App.step e s = Some s' →
  ∀ i polygon, App.polygons s' !! i = Some polygon → Polygon.points polygon ≠ [].
Proof.
  intros Hs Hstep. destruct e as [mx my|mx my|button mx my| |mx my];
    cbn [App.step] in Hstep.
  - injection Hstep as <-. exact Hs.
  - unfold App.handleMouseMove in Hstep.
    destruct (App.draggedPoint s) as [[index|index polygonIndex]|].
    + destruct (array_set (App.points s) index _); [|discriminate Hstep].
      injection Hstep as <-. exact Hs.
    + destruct (App.polygons s !! polygonIndex) as [polygon|] eqn:Hl;
        [|discriminate Hstep].
      cbn [mbind option_bind] in Hstep.
      destruct (array_set (Polygon.points polygon) index _) as [newPoints|] eqn:Hset;
        [|discriminate Hstep].
      injection Hstep as <-. intros i q. cbn [App.polygons].
      destruct (decide (i = polygonIndex)) as [->|Hne].
      * rewrite list_lookup_insert_eq by (apply lookup_lt_Some in Hl; exact Hl).
        intros [= <-]. exact (array_set_nonempty _ _ _ _ Hset).
      * rewrite list_lookup_insert_ne by congruence. apply Hs.
    + destruct (App.getPointAtPosition s mx my); injection Hstep as <-; exact Hs.
  - injection Hstep as <-. unfold App.handleMouseDown.
    destruct (decide (button ≠ 0%Z)); [exact Hs|].
    destruct (App.getPointAtPosition s mx my); exact Hs.
  - injection Hstep as <-. unfold App.handleMouseUp.
    destruct (App.draggedPoint s); exact Hs.
  - injection Hstep as <-. unfold App.handleClick.
    destruct (App.points s) as [|firstPoint rest] eqn:Hpts; [exact Hs|].
    destruct (App.draggedPoint s); [exact Hs|].
    destruct (within10 mx my firstPoint); [|exact Hs].
    intros i q. cbn [App.polygons]. intros Hq.
    apply lookup_app_Some in Hq as [Hq|[_ Hq]]; [exact (Hs i q Hq)|].
    apply list_lookup_singleton_Some in Hq as [_ <-]. discriminate.
Qed.

Lemma reachable_store_inv (s : App.State) :
  App.reachable s →
  ∀ i polygon, App.polygons s !! i = Some polygon →
    Polygon.points polygon ≠ []
    ∧ Polygon.area polygon = App.calculateArea (Polygon.points polygon).
Proof.
  intros Hr i polygon Hl. split.
  - revert i polygon Hl. induction Hr as [|e s s' Hr IH Hstep].
    + intros i polygon Hl. discriminate Hl.
    + exact (step_polygons_nonempty e s s' IH Hstep).
  - exact (proj1 (reachable_invariant s Hr) i polygon Hl).
Qed.

(** X8.  In every reachable state every stored polygon has at least one
    vertex, and its cached area is what [calculateArea] returns on its
    points. *)
Theorem reachable_store (s : App.State) :
  App.reachable s →
  ∀ i polygon, App.polygons s !! i = Some polygon →
    Polygon.points polygon ≠ []
    ∧ Polygon.area polygon = App.calculateArea (Polygon.points polygon).
Proof. exact (reachable_store_inv s). Qed.

Lemma reachable_store_witness :
  ∃ polygon,
    App.polygons dragging_polygon !! 0%nat = Some polygon
    ∧ Polygon.points polygon ≠ []
    ∧ Polygon.area polygon = App.calculateArea (Polygon.points polygon).
Proof.
  assert (∃ polygon, App.polygons dragging_polygon !! 0%nat = Some polygon)
    as [polygon Hl] by (eexists; vm_compute; reflexivity).
  exists polygon. split; [exact Hl|].
  exact (reachable_store dragging_polygon reachable_dragging_polygon 0%nat polygon Hl).
Defined.

Lemma reachable_cursor_inv (s : App.State) :
  App.reachable s →
  App.cursorStyle s = cursor_for (App.draggedPoint s) (App.hoveredPoint s).
Proof.
  induction 1 as [|e s s' _ IH Hstep]; [reflexivity|].
  destruct e as [mx my|mx my|button mx my| |mx my]; cbn [App.step] in Hstep.
  - injection Hstep as <-. exact IH.
  - unfold App.handleMouseMove in Hstep.
    destruct (App.draggedPoint s) as [[index|index polygonIndex]|] eqn:Hdrag.
    + destruct (array_set (App.points s) index _); [|discriminate Hstep].
      injection Hstep as <-. exact IH.
    + destruct (App.polygons s !! polygonIndex) as [polygon|];
        [|discriminate Hstep].
      cbn [mbind option_bind] in Hstep.
      destruct (array_set (Polygon.points polygon) index _); [|discriminate Hstep].
      injection Hstep as <-. exact IH.
    + destruct (App.getPointAtPosition s mx my); injection Hstep as <-; reflexivity.
  - injection Hstep as <-. unfold App.handleMouseDown.
    destruct (decide (button ≠ 0%Z)); [exact IH|].
    destruct (App.getPointAtPosition s mx my); [reflexivity | exact IH].
  - injection Hstep as <-. unfold App.handleMouseUp.
    destruct (App.draggedPoint s) eqn:Hdrag; [|rewrite Hdrag; exact IH].
    cbn [App.cursorStyle App.draggedPoint App.hoveredPoint cursor_for].
    destruct (App.hoveredPoint s); reflexivity.
  - injection Hstep as <-. unfold App.handleClick.
    destruct (App.points s) as [|firstPoint rest]; [exact IH|].
    destruct (App.draggedPoint s) eqn:Hdrag; [rewrite Hdrag; exact IH|].
    destruct (within10 mx my firstPoint); [|rewrite Hdrag]; exact IH.
Qed.

(** X9.  In every reachable state the cursor style is determined by the
    drag and hover targets: grabbing while a drag is active, otherwise
    pointer over a hovered vertex and crosshair elsewhere. *)
Theorem reachable_cursor (s : App.State) :
  App.reachable s →
  App.cursorStyle s = cursor_for (App.draggedPoint s) (App.hoveredPoint s).
Proof. exact (reachable_cursor_inv s). Qed.

Lemma reachable_cursor_witness :
  App.cursorStyle dragging_polygon
  = cursor_for (App.draggedPoint dragging_polygon) (App.hoveredPoint dragging_polygon).
Proof. exact (reachable_cursor dragging_polygon reachable_dragging_polygon). Defined.

(** X10.  In every reachable state the drag target, if any, names an
    existing vertex, and no handler fails: a drag step never reads a
    missing polygon and never leaves a hole in an array. *)
Theorem reachable_no_failure (s : App.State) :
  App.reachable s →
  (∀ t, App.draggedPoint s = Some t → is_Some (target_vertex s t))
  ∧ (∀ e, is_Some (App.step e s)).
Proof.
  intros Hr. split.
  - intros t Ht. destruct (reachable_invariant s Hr) as [_ Hvalid].
    specialize (Hvalid t Ht). destruct t as [index|index polygonIndex].
    + apply lookup_lt_is_Some. exact Hvalid.
    + destruct Hvalid as (polygon & Hl & Hi). cbn [target_vertex]. rewrite Hl.
      apply lookup_lt_is_Some. exact Hi.
  - intros e. destruct (reachable_step_total e s Hr) as [s' Hs'].
    exists s'. exact Hs'.
Qed.

Lemma reachable_no_failure_witness :
  (∀ t, App.draggedPoint dragging_polygon = Some t →
        is_Some (target_vertex dragging_polygon t))
  ∧ (∀ e, is_Some (App.step e dragging_polygon)).
Proof. exact (reachable_no_failure dragging_polygon reachable_dragging_polygon). Defined.

(** ** Dragging a vertex of the chain *)

(** X11.  A drag step on vertex [index] of the chain, in a reachable state,
    replaces that vertex by the cursor; the other vertices, the length of
    the chain, the store and every other field are unchanged. *)
Theorem drag_chain_frame (s : App.State) (mx my : Qc) (index : nat) :
  App.reachable s →
  App.draggedPoint s = Some (TCurrent index) →
  ∃ s',
    App.handleMouseMove mx my s = Some s'
    ∧ App.points s' !! index = Some (mkPoint mx my)
    ∧ length (App.points s') = length (App.points s)
    ∧ (∀ k, k ≠ index → App.points s' !! k = App.points s !! k)
    ∧ App.polygons s' = App.polygons s
    ∧ App.mousePos s' = App.mousePos s
    ∧ App.isDrawing s' = App.isDrawing s
    ∧ App.draggedPoint s' = App.draggedPoint s
    ∧ App.hoveredPoint s' = App.hoveredPoint s
    ∧ App.cursorStyle s' = App.cursorStyle s.
Proof.
  intros Hr Hdrag.
  destruct (reachable_invariant s Hr) as [_ Hvalid].
  pose proof (Hvalid _ Hdrag) as Hi. cbn in Hi.
  unfold App.handleMouseMove. rewrite Hdrag, (array_set_Some _ _ _ Hi).
  eexists. split; [reflexivity|].
  cbn [App.points App.polygons App.mousePos App.isDrawing App.draggedPoint
       App.hoveredPoint App.cursorStyle].
  split; [apply list_lookup_insert_eq; exact Hi|].
  split; [apply length_insert|].
  split; [intros k Hk; apply list_lookup_insert_ne; congruence|].
  repeat split.
Qed.

Lemma drag_chain_frame_witness :
  ∃ s',
    App.handleMouseMove (num 30) (num 40) dragging_chain = Some s'
    ∧ App.points s' !! 0%nat = Some (mkPoint (num 30) (num 40))
    ∧ length (App.points s') = length (App.points dragging_chain)
    ∧ (∀ k, k ≠ 0%nat → App.points s' !! k = App.points dragging_chain !! k)
    ∧ App.polygons s' = App.polygons dragging_chain
    ∧ App.mousePos s' = App.mousePos dragging_chain
    ∧ App.isDrawing s' = App.isDrawing dragging_chain
    ∧ App.draggedPoint s' = App.draggedPoint dragging_chain
    ∧ App.hoveredPoint s' = App.hoveredPoint dragging_chain
    ∧ App.cursorStyle s' = App.cursorStyle dragging_chain.
Proof.
  exact (drag_chain_frame dragging_chain (num 30) (num 40) 0
           reachable_dragging_chain dragging_chain_target).
Defined.

(** ** Pressing and releasing *)

(** X12.  With no drag active, pressing a mouse button and releasing it
    without moving brings a reachable state back to itself. *)
Theorem press_release_restores (s : App.State) (button : Z) (mx my : Qc) :
  App.reachable s →
  App.draggedPoint s = None →
  App.handleMouseUp (App.handleMouseDown button mx my s) = s.
Proof.
  intros Hr Hdrag. pose proof (reachable_cursor_inv s Hr) as Hcursor.
  rewrite Hdrag in Hcursor. cbn [cursor_for] in Hcursor.
  unfold App.handleMouseDown.
  destruct (decide (button ≠ 0%Z)) as [_|_];
    [|destruct (App.getPointAtPosition s mx my) as [target|]];
    unfold App.handleMouseUp; cbn [App.draggedPoint App.hoveredPoint App.points
      App.mousePos App.isDrawing App.polygons]; rewrite ?Hdrag; try reflexivity.
  rewrite <- Hcursor, <- Hdrag. destruct s; reflexivity.
Qed.

Lemma press_release_restores_witness :
  App.handleMouseUp (App.handleMouseDown 0 (num 0) (num 0) triangle_chain)
  = triangle_chain.
Proof.
  exact (press_release_restores triangle_chain 0 (num 0) (num 0)
           reachable_triangle_chain eq_refl).
Defined.

(** X13.  With the first vertex of the chain grabbed, a drag step moves it
    to the cursor; a click there is ignored while the drag is active, but
    once the button is released the same click closes the chain, the
    dragged vertex being at distance 0 from the cursor. *)
Theorem release_then_click_closes (s : App.State) (mx my : Qc)
    (firstPoint : Point) (rest : list Point) :
  App.points s = firstPoint :: rest →
  App.draggedPoint s = Some (TCurrent 0) →
  ∃ s1,
    App.handleMouseMove mx my s = Some s1
    ∧ App.points s1 = mkPoint mx my :: rest
    ∧ App.handleClick mx my s1 = s1
    ∧ App.handleClick mx my (App.handleMouseUp s1)
      = App.mkState [] None false
          (App.polygons s
           ++ [Polygon.mk (App.calculateArea (mkPoint mx my :: rest))
                          (mkPoint mx my :: rest)])
          None (App.hoveredPoint s) (cursor_for None (App.hoveredPoint s)).
Proof.
  intros Hpts Hdrag. unfold App.handleMouseMove.
  rewrite Hdrag, Hpts, array_set_Some by (simpl; lia).
  eexists. split; [reflexivity|]. split; [reflexivity|]. split.
  - unfold App.handleClick. cbn [App.points App.draggedPoint list_insert insert].
    reflexivity.
  - rewrite (handleClick_near _ mx my (mkPoint mx my) rest).
    + reflexivity.
    + reflexivity.
    + reflexivity.
    + apply near_within10, within10_self.
Qed.

Lemma release_then_click_closes_witness :
  ∃ s1,
    App.handleMouseMove (num 30) (num 40) dragging_chain = Some s1
    ∧ App.points s1 = mkPoint (num 30) (num 40) :: []
    ∧ App.handleClick (num 30) (num 40) s1 = s1
    ∧ App.handleClick (num 30) (num 40) (App.handleMouseUp s1)
      = App.mkState [] None false
          (App.polygons dragging_chain
           ++ [Polygon.mk (App.calculateArea (mkPoint (num 30) (num 40) :: []))
                          (mkPoint (num 30) (num 40) :: [])])
          None (App.hoveredPoint dragging_chain)
          (cursor_for None (App.hoveredPoint dragging_chain)).
Proof.
  exact (release_then_click_closes dragging_chain (num 30) (num 40) (pt 0 0) []
           eq_refl dragging_chain_target).
Defined.

(** ** The two variants *)

Lemma forget_handleContextMenu (s : App.State) (mx my : Qc) :
  forget (App.handleContextMenu mx my s) = NoDrag.handleContextMenu mx my (forget s).
Proof. reflexivity. Qed.

Lemma forget_handleMouseMove (s : App.State) (mx my : Qc) :
  App.draggedPoint s = None →
  ∃ s', App.handleMouseMove mx my s = Some s'
        ∧ App.draggedPoint s' = None
        ∧ forget s' = NoDrag.handleMouseMove mx my (forget s).
Proof.
  intros Hdrag. unfold App.handleMouseMove, NoDrag.handleMouseMove. rewrite Hdrag.
  destruct (App.getPointAtPosition s mx my); eexists;
    (split; [reflexivity|]); (split; [reflexivity|]);
    unfold forget; cbn [App.points App.mousePos App.isDrawing App.polygons
                        NoDrag.isDrawing NoDrag.points NoDrag.polygons];
    destruct (App.isDrawing s) eqn:Hd; cbn [negb]; rewrite ?Hd; reflexivity.
Qed.

Lemma forget_handleClick (s : App.State) (mx my : Qc) :
  App.draggedPoint s = None →
  App.draggedPoint (App.handleClick mx my s) = None
  ∧ forget (App.handleClick mx my s) = NoDrag.handleClick mx my (forget s).
Proof.
  intros Hdrag. unfold App.handleClick, NoDrag.handleClick.
  cbn [forget NoDrag.points NoDrag.polygons]. rewrite Hdrag.
  destruct (App.points s) as [|firstPoint rest]; [split; [exact Hdrag | reflexivity]|].
  destruct (within10 mx my firstPoint); split; try exact Hdrag; reflexivity.
Qed.

Lemma nodrag_reachable_lift (n : NoDrag.State) :
  NoDrag.reachable n →
  ∃ s, App.reachable s ∧ App.draggedPoint s = None ∧ forget s = n.
Proof.
  induction 1 as [|e n Hn (s & Hr & Hdrag & <-)].
  - exists App.initial. repeat split. apply App.reachable_initial.
  - destruct e as [mx my|mx my|mx my]; cbn [NoDrag.step].
    + exists (App.handleContextMenu mx my s).
      split; [exact (reachable_handleContextMenu mx my s Hr)|].
      split; [exact Hdrag | reflexivity].
    + destruct (forget_handleMouseMove s mx my Hdrag) as (s' & Hmove & Hdrag' & Hforget).
      exists s'. split; [|split; assumption].
      exact (App.reachable_step (App.onMouseMove mx my) s s' Hr Hmove).
    + exists (App.handleClick mx my s).
      split; [exact (reachable_handleClick mx my s Hr)|].
      exact (forget_handleClick s mx my Hdrag).
Qed.

(** X14.  The variant without drag editing is the drag-editing variant with
    no drag ever started: on states without a drag target the three shared
    handlers agree on the shared fields, and every state reachable in the
    former is the shared part of a state reachable in the latter. *)
Theorem variants_simulation :
  (∀ (s : App.State) (mx my : Qc),
     forget (App.handleContextMenu mx my s)
     = NoDrag.handleContextMenu mx my (forget s))
  ∧ (∀ (s : App.State) (mx my : Qc),
     App.draggedPoint s = None →
     ∃ s', App.handleMouseMove mx my s = Some s'
           ∧ forget s' = NoDrag.handleMouseMove mx my (forget s))
  ∧ (∀ (s : App.State) (mx my : Qc),
     App.draggedPoint s = None →
     forget (App.handleClick mx my s) = NoDrag.handleClick mx my (forget s))
  ∧ (∀ n : NoDrag.State,
     NoDrag.reachable n →
     ∃ s, App.reachable s ∧ App.draggedPoint s = None ∧ forget s = n).
Proof.
  split; [exact forget_handleContextMenu|].
  split.
  { intros s mx my Hdrag.
    destruct (forget_handleMouseMove s mx my Hdrag) as (s' & Hmove & _ & Hforget).
    exists s'. split; assumption. }
  split.
  { intros s mx my Hdrag. exact (proj2 (forget_handleClick s mx my Hdrag)). }
  exact nodrag_reachable_lift.
Qed.

Lemma variants_simulation_witness :
  (∃ s', App.handleMouseMove (num 7) (num 8) triangle_chain = Some s'
         ∧ forget s' = NoDrag.handleMouseMove (num 7) (num 8) (forget triangle_chain))
  ∧ forget (App.handleClick (num 2) (num 2) triangle_chain)
    = NoDrag.handleClick (num 2) (num 2) (forget triangle_chain)
  ∧ ∃ s, App.reachable s ∧ App.draggedPoint s = None
         ∧ forget s = two_vertex_chain_nodrag.
Proof.
  split; [|split].
  - exact (proj1 (proj2 variants_simulation) triangle_chain (num 7) (num 8) eq_refl).
  - exact (proj1 (proj2 (proj2 variants_simulation))
             triangle_chain (num 2) (num 2) eq_refl).
  - apply (proj2 (proj2 (proj2 variants_simulation))).
    unfold two_vertex_chain_nodrag.
    apply (NoDrag.reachable_step (NoDrag.onContextMenu (num 1) (num 1))).
    apply (NoDrag.reachable_step (NoDrag.onContextMenu (num 0) (num 0))).
    apply NoDrag.reachable_initial.
Defined.

Lemma nodrag_step_store (e : NoDrag.Event) (s : NoDrag.State) :
  NoDrag.polygons (NoDrag.step e s) = NoDrag.polygons s
  ∨ ∃ mx my,
      e = NoDrag.onClick mx my
      ∧ NoDrag.points s ≠ []
      ∧ NoDrag.points (NoDrag.step e s) = []
      ∧ NoDrag.polygons (NoDrag.step e s)
        = NoDrag.polygons s
          ++ [Polygon.mk (NoDrag.calculateArea (NoDrag.points s)) (NoDrag.points s)].
Proof.
  destruct e as [mx my|mx my|mx my]; cbn [NoDrag.step].
  - left. reflexivity.
  - left. unfold NoDrag.handleMouseMove. destruct (negb (NoDrag.isDrawing s)); reflexivity.
  - unfold NoDrag.handleClick.
    destruct (NoDrag.points s) as [|firstPoint rest]; [left; reflexivity|].
    destruct (within10 mx my firstPoint); [|left; reflexivity].
    right. exists mx, my. repeat split. discriminate.
Qed.

Lemma nodrag_reachable_inv (n : NoDrag.State) :
  NoDrag.reachable n →
  (NoDrag.isDrawing n = true ↔ NoDrag.points n ≠ [])
  ∧ (NoDrag.isDrawing n = false → NoDrag.mousePos n = None)
  ∧ ∀ i polygon, NoDrag.polygons n !! i = Some polygon →
      Polygon.points polygon ≠ []
      ∧ Polygon.area polygon = NoDrag.calculateArea (Polygon.points polygon).
Proof.
  intros Hn.
  destruct (nodrag_reachable_lift n Hn) as (s & Hr & _ & <-).
  destruct (reachable_mode_inv s Hr) as [Hmode Hpos].
  split; [exact Hmode|]. split; [exact Hpos|].
  intros i polygon Hl. destruct (reachable_store_inv s Hr i polygon Hl) as (Hne & Harea).
  split; [exact Hne | exact Harea].
Qed.

(** X16.  In every reachable state of the variant without drag editing,
    drawing mode holds exactly when the chain is non-empty, there is no
    preview point outside drawing mode, and every stored polygon is
    non-empty with the area of its points. *)
Theorem nodrag_reachable_invariant (n : NoDrag.State) :
  NoDrag.reachable n →
  (NoDrag.isDrawing n = true ↔ NoDrag.points n ≠ [])
  ∧ (NoDrag.isDrawing n = false → NoDrag.mousePos n = None)
  ∧ ∀ i polygon, NoDrag.polygons n !! i = Some polygon →
      Polygon.points polygon ≠ []
      ∧ Polygon.area polygon = NoDrag.calculateArea (Polygon.points polygon).
Proof. exact (nodrag_reachable_inv n). Qed.

Lemma nodrag_reachable_invariant_witness :
  (NoDrag.isDrawing two_vertex_chain_nodrag = true
   ↔ NoDrag.points two_vertex_chain_nodrag ≠ [])
  ∧ (NoDrag.isDrawing two_vertex_chain_nodrag = false
     → NoDrag.mousePos two_vertex_chain_nodrag = None)
  ∧ ∀ i polygon, NoDrag.polygons two_vertex_chain_nodrag !! i = Some polygon →
      Polygon.points polygon ≠ []
      ∧ Polygon.area polygon = NoDrag.calculateArea (Polygon.points polygon).
Proof.
  apply nodrag_reachable_invariant. unfold two_vertex_chain_nodrag.
  apply (NoDrag.reachable_step (NoDrag.onContextMenu (num 1) (num 1))).
  apply (NoDrag.reachable_step (NoDrag.onContextMenu (num 0) (num 0))).
  apply NoDrag.reachable_initial.
Defined.

(** ** Event sequences *)

(** X15.  In the variant without drag editing the store is append-only:
    after any sequence of events the polygons stored before are still
    there, unchanged and in the same order, at the front of the store. *)
Theorem nodrag_store_append_only (es : list NoDrag.Event) (s : NoDrag.State) :
  NoDrag.polygons s `prefix_of` NoDrag.polygons (run_nodrag es s).
Proof.
  revert s. induction es as [|e es IH]; intros s; [reflexivity|].
  cbn [run_nodrag foldl]. etrans; [|apply IH].
  destruct (nodrag_step_store e s) as [->|(mx & my & _ & _ & _ & ->)];
    [reflexivity | apply prefix_app_r; reflexivity].
Qed.

Lemma step_keeps_polygons (e : App.Event) (s s' : App.State) :
  App.reachable s →
  App.step e s = Some s' →
  ∀ i polygon, App.polygons s !! i = Some polygon →
    ∃ polygon', App.polygons s' !! i = Some polygon'
                ∧ length (Polygon.points polygon') = length (Polygon.points polygon).
Proof.
  intros Hr Hstep i polygon Hl.
  destruct e as [mx my|mx my|button mx my| |mx my]; cbn [App.step] in Hstep.
  - injection Hstep as <-. exists polygon. split; [exact Hl | reflexivity].
  - destruct (App.draggedPoint s) as [[index|index polygonIndex]|] eqn:Hdrag.
    + unfold App.handleMouseMove in Hstep. rewrite Hdrag in Hstep.
      destruct (array_set (App.points s) index _); [|discriminate Hstep].
      injection Hstep as <-. exists polygon. split; [exact Hl | reflexivity].
    + destruct (handleMouseMove_drag_polygon s mx my index polygonIndex Hr Hdrag)
        as (old & Hold & Hi & Hmove).
      rewrite Hmove in Hstep. injection Hstep as <-. cbn [App.polygons].
      destruct (decide (i = polygonIndex)) as [->|Hne].
      * eexists. split.
        -- apply list_lookup_insert_eq. apply lookup_lt_Some in Hl. exact Hl.
        -- cbn [Polygon.points]. rewrite length_insert. congruence.
      * exists polygon. split; [|reflexivity].
        rewrite list_lookup_insert_ne by congruence. exact Hl.
    + unfold App.handleMouseMove in Hstep. rewrite Hdrag in Hstep.
      destruct (App.getPointAtPosition s mx my); injection Hstep as <-;
        exists polygon; (split; [exact Hl | reflexivity]).
  - injection Hstep as <-. exists polygon. split; [|reflexivity].
    unfold App.handleMouseDown. destruct (decide (button ≠ 0%Z)); [exact Hl|].
    destruct (App.getPointAtPosition s mx my); exact Hl.
  - injection Hstep as <-. exists polygon. split; [|reflexivity].
    unfold App.handleMouseUp. destruct (App.draggedPoint s); exact Hl.
  - injection Hstep as <-. exists polygon. split; [|reflexivity].
    unfold App.handleClick.
    destruct (App.points s) as [|firstPoint rest]; [exact Hl|].
    destruct (App.draggedPoint s); [exact Hl|].
    destruct (within10 mx my firstPoint); [|exact Hl].
    cbn [App.polygons]. apply lookup_app_l_Some. exact Hl.
Qed.

(** X17.  From a reachable state every sequence of events runs to the end,
    and every polygon stored at the start is still stored at the same
    index with the same number of vertices. *)
Theorem run_keeps_polygons (es : list App.Event) (s : App.State) :
  App.reachable s →
  ∃ s', run es s = Some s'
    ∧ App.reachable s'
    ∧ ∀ i polygon, App.polygons s !! i = Some polygon →
        ∃ polygon', App.polygons s' !! i = Some polygon'
          ∧ length (Polygon.points polygon') = length (Polygon.points polygon).
Proof.
  revert s. induction es as [|e es IH]; intros s Hr.
  - exists s. split; [reflexivity|]. split; [exact Hr|].
    intros i polygon Hl. exists polygon. split; [exact Hl | reflexivity].
  - destruct (reachable_step_total e s Hr) as [s1 Hstep].
    assert (App.reachable s1) as Hr1 by exact (App.reachable_step e s s1 Hr Hstep).
    destruct (IH s1 Hr1) as (s' & Hrun & Hr' & Hkeep).
    exists s'. cbn [run]. rewrite Hstep. cbn [mbind option_bind].
    split; [exact Hrun|]. split; [exact Hr'|].
    intros i polygon Hl.
    destruct (step_keeps_polygons e s s1 Hr Hstep i polygon Hl) as (p1 & Hl1 & Hlen1).
    destruct (Hkeep i p1 Hl1) as (p' & Hl' & Hlen').
    exists p'. split; [exact Hl' | congruence].
Qed.

Lemma run_keeps_polygons_witness :
  ∃ s', run [App.onMouseMove (num 12) (num 3); App.onMouseUp;
             App.onContextMenu (num 1) (num 1)] dragging_polygon = Some s'
    ∧ App.reachable s'
    ∧ ∀ i polygon, App.polygons dragging_polygon !! i = Some polygon →
        ∃ polygon', App.polygons s' !! i = Some polygon'
          ∧ length (Polygon.points polygon') = length (Polygon.points polygon).
Proof. exact (run_keeps_polygons _ dragging_polygon reachable_dragging_polygon). Defined.

(** ** Drawing *)

Lemma handle_centres_app (a b : list CanvasOp) :
  handle_centres (a ++ b) = handle_centres a ++ handle_centres b.
Proof. apply omap_app. Qed.

Lemma area_texts_app (a b : list CanvasOp) :
  area_texts (a ++ b) = area_texts a ++ area_texts b.
Proof. apply omap_app. Qed.

Lemma handle_centres_lines (l : list Point) :
  handle_centres ((λ p, lineTo (x p) (y p)) <$> l) = [].
Proof. induction l as [|p l IH]; [reflexivity | exact IH]. Qed.

Lemma area_texts_lines (l : list Point) :
  area_texts ((λ p, lineTo (x p) (y p)) <$> l) = [].
Proof. induction l as [|p l IH]; [reflexivity | exact IH]. Qed.

Lemma handle_centres_imap (g : nat → Point → list CanvasOp) (points : list Point) :
  (∀ i p, handle_centres (g i p) = p :: []) →
  handle_centres (mjoin (imap g points)) = points.
Proof.
  revert g. induction points as [|p points IH]; intros g Hg; [reflexivity|].
  cbn [imap mjoin list_join]. rewrite handle_centres_app, Hg.
  cbn [app]. f_equal. apply IH. intros i q. apply Hg.
Qed.

Lemma handle_centres_handles (points : list Point) :
  handle_centres (mjoin (imap drawHandle points)) = points.
Proof. apply handle_centres_imap. intros i [px py]. reflexivity. Qed.

Lemma area_texts_imap (g : nat → Point → list CanvasOp) (points : list Point) :
  (∀ i p, area_texts (g i p) = []) →
  area_texts (mjoin (imap g points)) = [].
Proof.
  revert g. induction points as [|p points IH]; intros g Hg; [reflexivity|].
  cbn [imap mjoin list_join]. rewrite area_texts_app, Hg.
  cbn [app]. apply IH. intros i q. apply Hg.
Qed.

Lemma area_texts_handles (points : list Point) :
  area_texts (mjoin (imap drawHandle points)) = [].
Proof. apply area_texts_imap. intros i p. reflexivity. Qed.

Lemma handle_centres_areaText (area : option Qc) (points : list Point) :
  handle_centres (drawAreaText area points) = [].
Proof. destruct area, points; reflexivity. Qed.

Lemma handle_centres_redraw (width height : Qc) (points : list Point)
    (isDrawing : bool) (mousePos : option Point) :
  handle_centres (redraw width height points isDrawing mousePos) = points.
Proof.
  unfold redraw. rewrite !handle_centres_app.
  rewrite (handle_centres_handles points).
  destruct points as [|firstPoint rest]; [reflexivity|].
  rewrite !handle_centres_app, handle_centres_lines.
  destruct isDrawing, mousePos; reflexivity.
Qed.

Lemma area_texts_redraw (width height : Qc) (points : list Point)
    (isDrawing : bool) (mousePos : option Point) :
  area_texts (redraw width height points isDrawing mousePos) = [].
Proof.
  unfold redraw. rewrite !area_texts_app.
  rewrite (area_texts_handles points).
  destruct points as [|firstPoint rest]; [reflexivity|].
  rewrite !area_texts_app, area_texts_lines.
  destruct isDrawing, mousePos; reflexivity.
Qed.

Lemma handle_centres_drawPolygon (area : option Qc) (points : list Point) :
  handle_centres (drawPolygon area points) = points.
Proof.
  unfold drawPolygon. rewrite !handle_centres_app.
  rewrite (handle_centres_handles points), handle_centres_areaText, app_nil_r.
  destruct points as [|firstPoint rest]; [reflexivity|].
  rewrite !handle_centres_app, handle_centres_lines. reflexivity.
Qed.

Lemma area_texts_drawPolygon (area : Qc) (firstPoint : Point) (rest : list Point) :
  area_texts (drawPolygon (Some area) (firstPoint :: rest))
  = (area, mkPoint (x firstPoint) (y firstPoint - num 15)) :: [].
Proof.
  unfold drawPolygon. rewrite !area_texts_app.
  rewrite (area_texts_handles (firstPoint :: rest)), area_texts_lines.
  reflexivity.
Qed.

Lemma handle_centres_render (width height : Qc) (s : App.State) :
  handle_centres (render width height s)
  = App.points s ++ mjoin (Polygon.points <$> App.polygons s).
Proof.
  unfold render. rewrite handle_centres_app, handle_centres_redraw. f_equal.
  induction (App.polygons s) as [|polygon store IH]; [reflexivity|].
  cbn [fmap list_fmap mjoin list_join].
  rewrite handle_centres_app, handle_centres_drawPolygon. f_equal. exact IH.
Qed.

(** X18.  The drawing effect draws one handle per vertex, centred on it:
    those of the chain, then those of each stored polygon in order; and
    every handle drawn can be grabbed: the hit test at its centre returns
    a target. *)
Theorem render_handles (width height : Qc) (s : App.State) :
  handle_centres (render width height s)
  = App.points s ++ mjoin (Polygon.points <$> App.polygons s)
  ∧ ∀ p, p ∈ handle_centres (render width height s) →
         is_Some (App.getPointAtPosition s (x p) (y p)).
Proof.
  split; [apply handle_centres_render|].
  intros p. rewrite handle_centres_render. intros Hp.
  destruct (App.getPointAtPosition s (x p) (y p)) as [t|] eqn:Hhit; [eexists; reflexivity|].
  destruct (proj2 (getPointAtPosition_sound_aux s (x p) (y p)) Hhit) as [Hchain Hstore].
  assert (Spec.near (x p) (y p) p) as Hnear.
  { apply near_within10. destruct p as [px py]. apply within10_self. }
  apply elem_of_app in Hp as [Hp|Hp]; [destruct (Hchain p Hp Hnear)|].
  apply list_elem_of_join in Hp as (pts & Hp & Hpts).
  apply list_elem_of_fmap in Hpts as (polygon & -> & Hpolygon).
  destruct (Hstore polygon Hpolygon p Hp Hnear).
Qed.

Lemma render_handles_witness :
  is_Some (App.getPointAtPosition overlapping_handles (x (pt 1 1)) (y (pt 1 1))).
Proof.
  apply (proj2 (render_handles (num 800) (num 600) overlapping_handles) (pt 1 1)).
  rewrite handle_centres_render, overlapping_handles_state.
  apply elem_of_app. left. cbn [App.points]. left.
Defined.

(** X19.  In a reachable state the drawing effect writes one area text per
    stored polygon, in order: the area of the polygon's current points,
    placed 15 above its first vertex. *)
Theorem render_area_texts (width height : Qc) (s : App.State) :
  App.reachable s →
  area_texts (render width height s)
  = (λ polygon,
       (App.calculateArea (Polygon.points polygon),
        mkPoint (x (Polygon.points polygon !!! 0%nat))
                (y (Polygon.points polygon !!! 0%nat) - num 15)))
    <$> App.polygons s.
Proof.
  intros Hr. unfold render. rewrite area_texts_app, area_texts_redraw.
  cbn [app].
  pose proof (reachable_store_inv s Hr) as Hstore.
  induction (App.polygons s) as [|polygon store IH]; [reflexivity|].
  cbn [fmap list_fmap mjoin list_join]. rewrite area_texts_app.
  destruct (Hstore 0%nat polygon eq_refl) as (Hne & Harea).
  destruct (Polygon.points polygon) as [|firstPoint rest] eqn:Hpts; [contradiction|].
  rewrite area_texts_drawPolygon, Harea. cbn [app]. f_equal.
  apply IH. intros i q Hq. exact (Hstore (S i) q Hq).
Qed.

Lemma render_area_texts_witness :
  area_texts (render (num 800) (num 600) dragging_polygon)
  = (λ polygon,
       (App.calculateArea (Polygon.points polygon),
        mkPoint (x (Polygon.points polygon !!! 0%nat))
                (y (Polygon.points polygon !!! 0%nat) - num 15)))
    <$> App.polygons dragging_polygon.
Proof.
  exact (render_area_texts (num 800) (num 600) dragging_polygon
           reachable_dragging_polygon).
Defined.

(** X20.  The dependencies of the drawing effect suffice: when a handler
    leaves [points], [mousePos] and [polygons] unchanged in a reachable
    state, the effect would draw exactly what it drew before. *)
Theorem render_deps_suffice (width height : Qc) (e : App.Event) (s s' : App.State) :
  App.reachable s →
  App.step e s = Some s' →
  App.points s' = App.points s →
  App.mousePos s' = App.mousePos s →
  App.polygons s' = App.polygons s →
  render width height s' = render width height s.
Proof.
  intros Hr Hstep Hpoints HmousePos Hpolygons.
  assert (App.reachable s') as Hr' by exact (App.reachable_step e s s' Hr Hstep).
  assert (App.isDrawing s' = App.isDrawing s) as HisDrawing.
  { pose proof (proj1 (reachable_mode_inv s Hr)) as Hm.
    pose proof (proj1 (reachable_mode_inv s' Hr')) as Hm'.
    rewrite Hpoints in Hm'.
    destruct (App.isDrawing s), (App.isDrawing s'); try reflexivity.
    - exact (proj2 Hm' (proj1 Hm eq_refl)).
    - symmetry. exact (proj2 Hm (proj1 Hm' eq_refl)). }
  unfold render. rewrite Hpoints, HmousePos, Hpolygons, HisDrawing. reflexivity.
Qed.

Lemma render_deps_suffice_witness :
  render (num 800) (num 600) (App.handleMouseUp dragging_polygon)
  = render (num 800) (num 600) dragging_polygon.
Proof.
  exact (render_deps_suffice (num 800) (num 600) App.onMouseUp dragging_polygon _
           reachable_dragging_polygon eq_refl eq_refl eq_refl eq_refl).
Defined.

(** X21.  The same in the variant without drag editing, whose effect does
    not list [polygons]: when a handler leaves [points] and [mousePos]
    unchanged in a reachable state, the drawing is unchanged. *)
Theorem render_nodrag_deps_suffice (width height : Qc) (e : NoDrag.Event)
    (s : NoDrag.State) :
  NoDrag.reachable s →
  NoDrag.points (NoDrag.step e s) = NoDrag.points s →
  NoDrag.mousePos (NoDrag.step e s) = NoDrag.mousePos s →
  render_nodrag width height (NoDrag.step e s) = render_nodrag width height s.
Proof.
  intros Hr Hpoints HmousePos.
  assert (NoDrag.polygons (NoDrag.step e s) = NoDrag.polygons s) as Hpolygons.
  { destruct (nodrag_step_store e s) as [H|(mx & my & _ & Hne & Hnil & _)];
      [exact H|].
    rewrite Hnil in Hpoints. destruct (Hne (eq_sym Hpoints)). }
  assert (NoDrag.isDrawing (NoDrag.step e s) = NoDrag.isDrawing s) as HisDrawing.
  { pose proof (proj1 (nodrag_reachable_inv s Hr)) as Hm.
    pose proof (proj1 (nodrag_reachable_inv _ (NoDrag.reachable_step e s Hr))) as Hm'.
    rewrite Hpoints in Hm'.
    destruct (NoDrag.isDrawing s), (NoDrag.isDrawing (NoDrag.step e s));
      try reflexivity.
    - exact (proj2 Hm' (proj1 Hm eq_refl)).
    - symmetry. exact (proj2 Hm (proj1 Hm' eq_refl)). }
  unfold render_nodrag. rewrite Hpoints, HmousePos, Hpolygons, HisDrawing.
  reflexivity.
Qed.

Lemma render_nodrag_deps_suffice_witness :
  render_nodrag (num 800) (num 600)
    (NoDrag.step (NoDrag.onClick (num 50) (num 50)) two_vertex_chain_nodrag)
  = render_nodrag (num 800) (num 600) two_vertex_chain_nodrag.
Proof.
  apply render_nodrag_deps_suffice; [|reflexivity|reflexivity].
  unfold two_vertex_chain_nodrag.
  apply (NoDrag.reachable_step (NoDrag.onContextMenu (num 1) (num 1))).
  apply (NoDrag.reachable_step (NoDrag.onContextMenu (num 0) (num 0))).
  apply NoDrag.reachable_initial.
Defined.
